(** * ISO3 mapping: the name normalizer and the fuzzy matcher of mapper_eng.py

    A shallow embedding of [src/mapper_eng.py].  Python strings are modelled
    as [string], each character being one code point in U+0000..U+00FF; the
    cells of a spreadsheet are Python values ([pyval]); a call that may raise
    returns in the small error monad [py]. *)

From Stdlib Require Import ZArith NArith List Bool Lia.
From Stdlib Require Import Strings.Ascii Strings.String Numbers.DecimalString.
Import ListNotations.

Open Scope string_scope.
Open Scope Z_scope.

(** ** Python values and [str()] *)

(** The values a spreadsheet cell, or the matcher's result, can hold.  A
    missing cell is read as the float NaN; the other floats are left out,
    their [str()] form is not modelled. *)
Inductive pyval : Type :=
| VStr (s : string)
| VNaN
| VInt (z : Z)
| VBool (b : bool)
| VNone.

(** [str(v)]. *)
Definition str (v : pyval) : string :=
  match v with
  | VStr s => s
  | VNaN => "nan"
  | VInt z => NilZero.string_of_int (Z.to_int z)
  | VBool true => "True"
  | VBool false => "False"
  | VNone => "None"
  end.

(** ** Character classes *)

Definition code (c : ascii) : N := N_of_ascii c.

Definition in_range (lo hi : N) (c : ascii) : bool :=
  ((lo <=? code c) && (code c <=? hi))%N.

(** [str.isspace] on one code point: what [str.strip()] removes. *)
Definition is_space (c : ascii) : bool :=
  in_range 9 13 c || in_range 28 32 c || (code c =? 133)%N || (code c =? 160)%N.

(** [str.lower] on one code point: A-Z, and the upper-case letters of
    U+00C0..U+00DE (the multiplication sign U+00D7 is not a letter). *)
Definition lower_char (c : ascii) : ascii :=
  if in_range 65 90 c
     || (in_range 192 222 c && negb (code c =? 215)%N)
  then ascii_of_N (code c + 32)
  else c.

(** The class [[a-z0-9 ]] of the second substitution. *)
Definition is_plain (c : ascii) : bool :=
  in_range 97 122 c || in_range 48 57 c || (code c =? 32)%N.

(** The class [\w] of [re] on [str] patterns: alphanumeric code points and
    the underscore. *)
Definition is_word (c : ascii) : bool :=
  in_range 48 57 c || in_range 65 90 c || in_range 97 122 c
  || (code c =? 95)%N
  || (code c =? 170)%N || (code c =? 181)%N || (code c =? 186)%N
  || in_range 178 179 c || (code c =? 185)%N || in_range 188 190 c
  || (in_range 192 255 c && negb (code c =? 215)%N && negb (code c =? 247)%N).

(** ** String operations used by [normalize] *)

(** [text.lower()]. *)
Fixpoint lower (s : string) : string :=
  match s with
  | EmptyString => EmptyString
  | String c s' => String (lower_char c) (lower s')
  end.

Fixpoint lstrip (s : string) : string :=
  match s with
  | EmptyString => EmptyString
  | String c s' => if is_space c then lstrip s' else s
  end.

Fixpoint rstrip (s : string) : string :=
  match s with
  | EmptyString => EmptyString
  | String c s' =>
      match rstrip s' with
      | EmptyString => if is_space c then EmptyString else String c EmptyString
      | r => String c r
      end
  end.

(** [text.strip()]. *)
Definition strip (s : string) : string := rstrip (lstrip s).

(** Does the text after an opening parenthesis reach a closing one?  The
    dot of the pattern matches every character but the line feed. *)
Fixpoint closes (s : string) : bool :=
  match s with
  | EmptyString => false
  | String c s' =>
      if (c =? ")")%char then true
      else if (code c =? 10)%N then false
      else closes s'
  end.

(** [re.sub(r'\(.*?\)', '', text)]: at an opening parenthesis that is
    closed on its line, the text through the nearest closing parenthesis is
    dropped and the scan goes on after it; every other character is kept. *)
Fixpoint sub_parens (s : string) : string :=
  match s with
  | EmptyString => EmptyString
  | String c s' =>
      let fix skip (t : string) : string :=
        match t with
        | EmptyString => EmptyString
        | String d t' => if (d =? ")")%char then sub_parens t' else skip t'
        end in
      if (c =? "(")%char && closes s' then skip s'
      else String c (sub_parens s')
  end.

(** [re.sub(r'[^a-z0-9 ]', '', text)]. *)
Fixpoint sub_special (s : string) : string :=
  match s with
  | EmptyString => EmptyString
  | String c s' =>
      if is_plain c then String c (sub_special s') else sub_special s'
  end.

(** [\b] in front of [s]: the end of the text, or a character outside [\w]
    (used after a word character). *)
Definition word_ends (s : string) : bool :=
  match s with
  | EmptyString => true
  | String c _ => negb (is_word c)
  end.

(** Does [\bthe\b] match at the head of [s], the previous character not
    being a word character? *)
Definition the_here (s : string) : bool :=
  match s with
  | String a (String b (String c rest)) =>
      (a =? "t")%char && (b =? "h")%char && (c =? "e")%char && word_ends rest
  | _ => false
  end.

(** [re.sub(r'\bthe\b', '', text)]; [prev] tells whether the character
    before [s] is a word character. *)
Fixpoint sub_the (prev : bool) (s : string) : string :=
  match s with
  | EmptyString => EmptyString
  | String c s' =>
      if negb prev && the_here s then
        match s' with
        | String _ (String _ rest) => sub_the true rest
        | _ => EmptyString
        end
      else String c (sub_the (is_word c) s')
  end.

(** Every character of [s] is in the class [[a-z0-9 ]]. *)
Fixpoint all_plain (s : string) : bool :=
  match s with
  | EmptyString => true
  | String c s' => is_plain c && all_plain s'
  end.

(** [s] does not start with a whitespace character. *)
Definition starts_clean (s : string) : bool :=
  match s with
  | EmptyString => true
  | String c _ => negb (is_space c)
  end.

(** Every character of [s] satisfies [f]. *)
Fixpoint all_chars (f : ascii -> bool) (s : string) : bool :=
  match s with
  | EmptyString => true
  | String c s' => f c && all_chars f s'
  end.

(** The text after the first closing parenthesis of [s]. *)
Fixpoint after_close (s : string) : string :=
  match s with
  | EmptyString => EmptyString
  | String c s' => if (c =? ")")%char then s' else after_close s'
  end.

(** Is the last character of [s] a word character?  [p] answers for the
    empty text. *)
Fixpoint last_is_word (p : bool) (s : string) : bool :=
  match s with
  | EmptyString => p
  | String c s' => last_is_word (is_word c) s'
  end.

(** ** [normalize] *)

Definition normalize (text : pyval) : string :=
  let text := strip (lower (str text)) in
  let text := sub_parens text in
  let text := sub_special text in
  let text := sub_the false text in
  strip text.

(** What [normalize] returns: characters of [[a-z0-9 ]] only, no whitespace
    at either end, no word "the". *)
Definition normalized (t : string) : Prop :=
  all_plain t = true /\ strip t = t /\ sub_the false t = t.

(** ** Calls that may raise *)

(** The result of a Python call: a value, or an exception. *)
Inductive py (A : Type) : Type :=
| Ret (a : A)
| Raise.

Arguments Ret {A} a.
Arguments Raise {A}.

Definition bind {A B : Type} (m : py A) (k : A -> py B) : py B :=
  match m with
  | Ret a => k a
  | Raise => Raise
  end.

Notation "x <- m ;; k" := (bind m (fun x => k))
  (at level 61, m at next level, right associativity).

(** [Series.apply(f)]: [f] on every cell, in order; the first exception
    ends the call.  (pandas then infers the type of the new column, which
    leaves strings and None as they are.) *)
Fixpoint apply {A B : Type} (f : A -> py B) (cells : list A) : py (list B) :=
  match cells with
  | [] => Ret []
  | a :: rest =>
      b <- f a ;;
      bs <- apply f rest ;;
      Ret (b :: bs)
  end.

(** ** The similarity scorer and [process.extractOne] *)

(** The score [process.extractOne] gives a candidate for a query (the
    library's default scorer, applied after its own preprocessing): an
    integer between 0 and 100.  The scoring function belongs to the
    fuzzywuzzy library; the matcher is verified for every scorer with that
    range. *)
Class Scorer : Type := {
  score : string -> string -> Z;
  score_range : forall q c, 0 <= score q c <= 100
}.

(** Python's [max(pairs, key=lambda i: i[1])] after a first element [cur]:
    a later pair replaces the current one only with a strictly higher
    score, so the first of the highest pairs is returned. *)
Fixpoint max_from (cur : string * Z) (pairs : list (string * Z)) : string * Z :=
  match pairs with
  | [] => cur
  | p :: rest => if snd cur <? snd p then max_from p rest else max_from cur rest
  end.

(** Modelled from the spec: [process.extractOne] is a function of the
    fuzzywuzzy library, whose code is not part of the repository.  Spec 4.3,
    step 3: the best match between the query and every candidate in the
    pool, the single candidate with the highest score, the first candidate
    encountered with the maximal score among equals.  Every candidate is
    scored, the pairs below the library's default cutoff 0 are left out, and
    the first of the highest is returned with its score.  An empty pool has
    no best candidate: the call yields no pair. *)
Definition extractOne `{Scorer} (query : string) (choices : list string)
  : option (string * Z) :=
  let scored := map (fun c => (c, score query c)) choices in
  match filter (fun p => 0 <=? snd p) scored with
  | [] => None
  | p :: rest => Some (max_from p rest)
  end.

(** ** The reference table and the candidate pool *)

(** A row of the country reference table ([country.xlsx]). *)
Record country_row : Type := {
  longName_EN : pyval;
  shortName_EN : pyval;
  ISO3Code : pyval
}.

(** The columns [norm_long] and [norm_short] added to the table. *)
Definition norm_long (r : country_row) : string := normalize (longName_EN r).
Definition norm_short (r : country_row) : string := normalize (shortName_EN r).

(** [Series.unique()]: the distinct values, in order of first appearance. *)
Fixpoint unique (l : list string) : list string :=
  match l with
  | [] => []
  | x :: rest => x :: filter (fun y => negb (y =? x)%string) (unique rest)
  end.

(** [pd.concat([norm_long, norm_short]).dropna().unique()].  [normalize]
    returns a string for every cell, so [dropna] drops nothing. *)
Definition all_names (country : list country_row) : list string :=
  unique (map norm_long country ++ map norm_short country).

(** The rows selected by
    [(country['norm_long'] == match) | (country['norm_short'] == match)]. *)
Definition rows_named (m : string) (country : list country_row)
  : list country_row :=
  filter (fun r => (norm_long r =? m)%string || (norm_short r =? m)%string) country.

(** ** [match_iso3] *)

(** Unpacking [match, score = process.extractOne(...)] raises when the call
    yields no pair. *)
Definition match_iso3 `{Scorer} (country : list country_row) (area : pyval)
  : py pyval :=
  let norm_area := normalize area in
  if (norm_area =? "czechia")%string then Ret (VStr "CZE")
  else
    match extractOne norm_area (all_names country) with
    | None => Raise
    | Some (match_, score_) =>
        if 90 <=? score_ then
          match rows_named match_ country with
          | r :: _ => Ret (ISO3Code r)
          | [] => Ret VNone
          end
        else Ret VNone
    end.

(** ** The data set and the script *)

(** A data frame: its columns in order, each a name and its cells.  Column
    names are distinct, as [read_excel] makes them. *)
Definition DataFrame : Type := list (string * list pyval).

(** [df[name]]: [KeyError] when there is no such column. *)
Fixpoint getitem (name : string) (df : DataFrame) : py (list pyval) :=
  match df with
  | [] => Raise
  | (n, cells) :: rest => if (n =? name)%string then Ret cells else getitem name rest
  end.

Fixpoint has_column (name : string) (df : DataFrame) : bool :=
  match df with
  | [] => false
  | (n, _) :: rest => (n =? name)%string || has_column name rest
  end.

(** [df[name] = cells]: an existing column of that name is replaced where
    it stands; otherwise the column is appended last. *)
Fixpoint setitem (name : string) (cells : list pyval) (df : DataFrame)
  : DataFrame :=
  match df with
  | [] => [(name, cells)]
  | (n, old) :: rest =>
      if (n =? name)%string then (n, cells) :: rest
      else (n, old) :: setitem name cells rest
  end.

(** The script after the two tables are read: the data frame handed to
    [to_excel]. *)
Definition annotate `{Scorer} (country : list country_row) (id24 : DataFrame)
  : py DataFrame :=
  areas <- getitem "Area" id24 ;;
  codes <- apply (match_iso3 country) areas ;;
  Ret (setitem "ISO3Code" codes id24).

(** ** Scorers for concrete runs *)

(** A finite table of scores: the score of a listed (query, candidate)
    pair, 0 for a pair that is not listed. *)
Fixpoint lookup_score (tbl : list (string * string * Z)) (q c : string) : Z :=
  match tbl with
  | [] => 0
  | (q', c', z) :: rest =>
      if (q' =? q)%string && (c' =? c)%string then z else lookup_score rest q c
  end.

Definition clamp (z : Z) : Z := Z.max 0 (Z.min 100 z).

(** The scorer that reads its scores in [tbl]. *)
Definition table_scorer (tbl : list (string * string * Z)) : Scorer :=
  {| score := fun q c => clamp (lookup_score tbl q c);
     score_range := fun q c =>
       ltac:(unfold clamp; lia) |}.

(** The scorer that tells only equal non-empty strings (score 100) from
    different ones (score 0); the library's scorer gives these scores to
    equal strings and to strings without a common character. *)
Definition exact_score (q c : string) : Z :=
  if (q =? c)%string && negb (q =? "")%string then 100 else 0.

Definition exact_scorer : Scorer :=
  {| score := exact_score;
     score_range := fun q c =>
       ltac:(unfold exact_score; destruct (_ && _); lia) |}.

(** ** Sample tables *)

Definition usa : country_row :=
  {| longName_EN := VStr "United States of America";
     shortName_EN := VStr "USA";
     ISO3Code := VStr "USA" |}.

Definition guinea_bissau : country_row :=
  {| longName_EN := VStr "Guinea Bissau";
     shortName_EN := VStr "GNB";
     ISO3Code := VStr "GNB" |}.

Definition congo_cog : country_row :=
  {| longName_EN := VStr "Congo (Brazzaville)";
     shortName_EN := VStr "CG";
     ISO3Code := VStr "COG" |}.

Definition congo_cod : country_row :=
  {| longName_EN := VStr "Congo (Kinshasa)";
     shortName_EN := VStr "CD";
     ISO3Code := VStr "COD" |}.

(** A score table for the runs at the threshold: one pair at 90, one at 89. *)
Definition sample_scores : list (string * string * Z) :=
  [("guinea", "guinea bissau", 90); ("guinee bissau", "guinea bissau", 89)].

Definition sample_id24 : DataFrame :=
  [("Area", [VStr "USA"; VStr "Atlantis"; VNaN]);
   ("Value", [VInt 4; VInt 7; VInt 9])].

(** * Properties *)

(** ** The normalizer on examples *)

Example normalize_bahamas : normalize (VStr "The Bahamas") = "bahamas".
Proof. reflexivity. Qed.

(** The shortest match is removed at each opening parenthesis: the outer
    one is closed by the first closing parenthesis. *)
Example normalize_nested :
  normalize (VStr "a (b (c) d) e") = "a  d e".
Proof. reflexivity. Qed.

(** A parenthesis is not closed across a line feed. *)
Example sub_parens_line : sub_parens "a(b
c)d" = "a(b
c)d".
Proof. reflexivity. Qed.

(** C7: normalizing "Bolivia (Plurinational State of)" gives exactly
    "bolivia": the text is lowercased, the parenthesized part goes with its
    parentheses, which leaves "bolivia " with a trailing space, and that
    space is stripped. *)
Theorem normalize_bolivia :
  lower "Bolivia (Plurinational State of)" = "bolivia (plurinational state of)"
  /\ sub_parens "bolivia (plurinational state of)" = "bolivia "
  /\ strip "bolivia " = "bolivia"
  /\ normalize (VStr "Bolivia (Plurinational State of)") = "bolivia".
Proof. repeat split; reflexivity. Qed.

(** ** The candidate pool and the best match *)

Lemma unique_In (x : string) (l : list string) : In x (unique l) <-> In x l.
Proof.
  induction l as [|a l IH]; simpl; [tauto|].
  rewrite filter_In, IH. split.
  - intros [Ha | [Hl _]]; auto.
  - intros [Ha | Hl]; auto.
    destruct (String.eqb_spec x a) as [E | N]; [left; auto | right; auto].
Qed.

Lemma all_names_named (country : list country_row) (m : string) :
  In m (all_names country) ->
  exists r, In r country /\ (norm_long r = m \/ norm_short r = m).
Proof.
  unfold all_names. rewrite unique_In, in_app_iff, !in_map_iff.
  intros [[r [E Hr]] | [r [E Hr]]]; exists r; auto.
Qed.

Lemma named_in_all_names (country : list country_row) (r : country_row) :
  In r country ->
  In (norm_long r) (all_names country) /\ In (norm_short r) (all_names country).
Proof.
  intros Hr. unfold all_names. rewrite !unique_In, !in_app_iff.
  split; [left | right]; apply in_map; exact Hr.
Qed.

Lemma max_from_In (cur : string * Z) (l : list (string * Z)) :
  In (max_from cur l) (cur :: l).
Proof.
  revert cur. induction l as [|p l IH]; intros cur; simpl; [auto|].
  destruct (snd cur <? snd p).
  - right. apply IH.
  - destruct (IH cur) as [E | Hin]; auto.
Qed.

Section Matcher.

Context `{Scorer}.

Lemma extractOne_Some (q : string) (l : list string) (m : string) (s : Z) :
  extractOne q l = Some (m, s) -> In m l /\ s = score q m.
Proof.
  unfold extractOne.
  destruct (filter _ _) as [|p rest] eqn:F; [discriminate|].
  intros E. injection E as E.
  assert (Hin : In (m, s) (p :: rest)) by (rewrite <- E; apply max_from_In).
  rewrite <- F in Hin. apply filter_In in Hin. destruct Hin as [Hin _].
  apply in_map_iff in Hin. destruct Hin as [c [Ec Hc]].
  injection Ec as -> <-. auto.
Qed.

Lemma extractOne_nonempty (q : string) (l : list string) :
  l <> [] -> exists m s, extractOne q l = Some (m, s).
Proof.
  destruct l as [|c l]; [congruence|]. intros _.
  unfold extractOne. simpl.
  destruct (Z.leb_spec 0 (score q c)) as [_ | Hneg].
  - destruct (max_from _ _) as [m s]. eauto.
  - pose proof (score_range q c). lia.
Qed.

Lemma all_names_nonempty (country : list country_row) :
  country <> [] -> all_names country <> [].
Proof.
  destruct country as [|r rest]; [congruence|]. intros _. discriminate.
Qed.

Lemma rows_named_split (m : string) (pre post : list country_row)
      (r : country_row) :
  Forall (fun r' => norm_long r' <> m /\ norm_short r' <> m) pre ->
  norm_long r = m \/ norm_short r = m ->
  rows_named m (pre ++ r :: post) = r :: rows_named m post.
Proof.
  intros Hpre Hr. unfold rows_named.
  induction Hpre as [|r' pre [Hl Hs] _ IH]; simpl.
  - destruct Hr as [E | E]; rewrite E, String.eqb_refl;
      [reflexivity | rewrite orb_true_r; reflexivity].
  - apply String.eqb_neq in Hl, Hs. rewrite Hl, Hs. exact IH.
Qed.

Lemma rows_named_In (m : string) (country : list country_row)
      (r : country_row) :
  In r (rows_named m country) <->
  In r country /\ (norm_long r = m \/ norm_short r = m).
Proof.
  unfold rows_named. rewrite filter_In, orb_true_iff, !String.eqb_eq. tauto.
Qed.

(** The override of [match_iso3]. *)
Lemma match_iso3_override (country : list country_row) (area : pyval) :
  normalize area = "czechia" -> match_iso3 country area = Ret (VStr "CZE").
Proof.
  intros E. unfold match_iso3. rewrite E. reflexivity.
Qed.

(** The part of [match_iso3] after the override. *)
Lemma match_iso3_fuzzy (country : list country_row) (area : pyval) :
  normalize area <> "czechia" ->
  match_iso3 country area =
  match extractOne (normalize area) (all_names country) with
  | None => Raise
  | Some (m, s) =>
      if 90 <=? s then
        match rows_named m country with
        | r :: _ => Ret (ISO3Code r)
        | [] => Ret VNone
        end
      else Ret VNone
  end.
Proof.
  intros N. unfold match_iso3. apply String.eqb_neq in N. rewrite N.
  reflexivity.
Qed.

Lemma match_iso3_found (country : list country_row) (area : pyval)
      (m : string) (s : Z) :
  normalize area <> "czechia" ->
  extractOne (normalize area) (all_names country) = Some (m, s) ->
  90 <= s ->
  exists r rest,
    rows_named m country = r :: rest /\
    In r country /\ (norm_long r = m \/ norm_short r = m) /\
    match_iso3 country area = Ret (ISO3Code r).
Proof.
  intros N E Hs. rewrite (match_iso3_fuzzy _ _ N), E.
  apply Z.leb_le in Hs. rewrite Hs.
  destruct (extractOne_Some _ _ _ _ E) as [Hm _].
  destruct (all_names_named _ _ Hm) as [r0 [Hr0 Hn0]].
  assert (Hin : In r0 (rows_named m country)) by (apply rows_named_In; auto).
  destruct (rows_named m country) as [|r rest] eqn:R; [destruct Hin|].
  exists r, rest. split; [reflexivity|].
  assert (Hr : In r (rows_named m country)) by (rewrite R; left; reflexivity).
  apply rows_named_In in Hr. tauto.
Qed.

End Matcher.

(** ** The normalizer: auxiliary facts *)

Ltac each_char c :=
  destruct c as [[] [] [] [] [] [] [] []]; vm_compute;
  try reflexivity; try discriminate; auto.

Lemma plain_lower (c : ascii) : is_plain c = true -> lower_char c = c.
Proof. each_char c. Qed.

Lemma plain_not_paren (c : ascii) : is_plain c = true -> (c =? "(")%char = false.
Proof. each_char c. Qed.

Lemma space_not_word (c : ascii) : is_space c = true -> is_word c = false.
Proof. each_char c. Qed.

Lemma space_not_t (c : ascii) : is_space c = true -> (c =? "t")%char = false.
Proof. each_char c. Qed.

Lemma all_plain_lower (s : string) : all_plain s = true -> lower s = s.
Proof.
  induction s as [|c s IH]; simpl; [reflexivity|].
  intros Hp. apply andb_true_iff in Hp. destruct Hp as [Hc Hs].
  rewrite (plain_lower c Hc), (IH Hs). reflexivity.
Qed.

Lemma all_plain_sub_parens (s : string) :
  all_plain s = true -> sub_parens s = s.
Proof.
  induction s as [|c s IH]; [reflexivity|].
  intros Hp. simpl in Hp. apply andb_true_iff in Hp. destruct Hp as [Hc Hs].
  simpl. rewrite (plain_not_paren c Hc). simpl. rewrite (IH Hs). reflexivity.
Qed.

Lemma all_plain_sub_special (s : string) :
  all_plain s = true -> sub_special s = s.
Proof.
  induction s as [|c s IH]; simpl; [reflexivity|].
  intros Hp. apply andb_true_iff in Hp. destruct Hp as [Hc Hs].
  rewrite Hc, (IH Hs). reflexivity.
Qed.

Lemma sub_special_plain (s : string) : all_plain (sub_special s) = true.
Proof.
  induction s as [|c s IH]; simpl; [reflexivity|].
  destruct (is_plain c) eqn:Hc; simpl; [rewrite Hc|]; exact IH.
Qed.

(** *** Stripping *)

Lemma rstrip_cons (c : ascii) (s : string) :
  rstrip (String c s) = "" \/ rstrip (String c s) = String c (rstrip s).
Proof.
  simpl. destruct (rstrip s); [destruct (is_space c)|]; auto.
Qed.

Lemma rstrip_cons_empty (c : ascii) (s : string) :
  rstrip (String c s) = "" -> is_space c = true /\ rstrip s = "".
Proof.
  simpl. destruct (rstrip s); [destruct (is_space c)|]; try discriminate; auto.
Qed.

Lemma rstrip_idem (s : string) : rstrip (rstrip s) = rstrip s.
Proof.
  induction s as [|c s IH]; [reflexivity|].
  simpl. destruct (rstrip s) as [|d r] eqn:R.
  - destruct (is_space c) eqn:Hc; [reflexivity|]. simpl. rewrite Hc. reflexivity.
  - change (rstrip (String c (String d r))) with
      (match rstrip (String d r) with
       | "" => if is_space c then "" else String c ""
       | String e r' => String c (String e r')
       end).
    rewrite IH. reflexivity.
Qed.

Lemma lstrip_starts (s : string) : starts_clean (lstrip s) = true.
Proof.
  induction s as [|c s IH]; simpl; [reflexivity|].
  destruct (is_space c) eqn:Hc; [exact IH|]. simpl. rewrite Hc. reflexivity.
Qed.

Lemma starts_clean_lstrip (s : string) : starts_clean s = true -> lstrip s = s.
Proof.
  destruct s as [|c s]; simpl; [reflexivity|].
  destruct (is_space c); [discriminate | reflexivity].
Qed.

Lemma rstrip_starts (s : string) :
  starts_clean s = true -> starts_clean (rstrip s) = true.
Proof.
  destruct s as [|c s]; [reflexivity|]. intros Hc.
  destruct (rstrip_cons c s) as [E | E]; rewrite E; [reflexivity | exact Hc].
Qed.

Lemma strip_idem (s : string) : strip (strip s) = strip s.
Proof.
  unfold strip.
  rewrite (starts_clean_lstrip (rstrip (lstrip s))).
  - apply rstrip_idem.
  - apply rstrip_starts, lstrip_starts.
Qed.

Lemma lstrip_plain (s : string) :
  all_plain s = true -> all_plain (lstrip s) = true.
Proof.
  induction s as [|c s IH]; simpl; [reflexivity|].
  intros Hp. destruct (is_space c); [|exact Hp].
  apply andb_true_iff in Hp. tauto.
Qed.

Lemma rstrip_plain (s : string) :
  all_plain s = true -> all_plain (rstrip s) = true.
Proof.
  induction s as [|c s IH]; [reflexivity|].
  intros Hp. simpl in Hp. apply andb_true_iff in Hp. destruct Hp as [Hc Hs].
  destruct (rstrip_cons c s) as [E | E]; rewrite E; [reflexivity|].
  simpl. rewrite Hc. exact (IH Hs).
Qed.

Lemma strip_plain (s : string) :
  all_plain s = true -> all_plain (strip s) = true.
Proof. intros Hp. apply rstrip_plain, lstrip_plain, Hp. Qed.

(** *** Removing the word "the" *)

Lemma the_here_inv (s : string) :
  the_here s = true ->
  exists rest,
    s = String "t" (String "h" (String "e" rest)) /\ word_ends rest = true.
Proof.
  destruct s as [|a [|b [|c rest]]]; simpl; try discriminate.
  rewrite !andb_true_iff, !Ascii.eqb_eq.
  intros [[[-> ->] ->] W]. eauto.
Qed.

Lemma sub_the_keep (p : bool) (c : ascii) (s : string) :
  negb p && the_here (String c s) = false ->
  sub_the p (String c s) = String c (sub_the (is_word c) s).
Proof.
  intros E. change (sub_the p (String c s)) with
    (if negb p && the_here (String c s)
     then match s with
          | String _ (String _ rest) => sub_the true rest
          | _ => ""
          end
     else String c (sub_the (is_word c) s)).
  rewrite E. reflexivity.
Qed.

Lemma sub_the_after_word (s : string) :
  sub_the true s =
  match s with
  | "" => ""
  | String c s' => String c (sub_the (is_word c) s')
  end.
Proof.
  destruct s as [|c s']; [reflexivity|]. apply sub_the_keep. reflexivity.
Qed.

Lemma sub_the_drop (rest : string) :
  word_ends rest = true ->
  sub_the false (String "t" (String "h" (String "e" rest))) = sub_the true rest.
Proof.
  intros W.
  change (sub_the false (String "t" (String "h" (String "e" rest)))) with
    (if negb false && the_here (String "t" (String "h" (String "e" rest)))
     then sub_the true rest
     else String "t" (sub_the (is_word "t") (String "h" (String "e" rest)))).
  unfold the_here. rewrite W. reflexivity.
Qed.

(** The cases of [sub_the] as an induction principle. *)
Lemma sub_the_cases (P : bool -> string -> Prop) :
  (forall p, P p "") ->
  (forall rest, word_ends rest = true -> P true rest ->
     P false (String "t" (String "h" (String "e" rest)))) ->
  (forall p c s, negb p && the_here (String c s) = false ->
     P (is_word c) s -> P p (String c s)) ->
  forall p s, P p s.
Proof.
  intros H0 Hdrop Hkeep.
  assert (G : forall n p s, (String.length s <= n)%nat -> P p s).
  { induction n as [|n IH]; intros p s Hn.
    - destruct s; [apply H0 | simpl in Hn; lia].
    - destruct s as [|c s]; [apply H0|].
      destruct (negb p && the_here (String c s)) eqn:E.
      + apply andb_true_iff in E. destruct E as [Ep Eh].
        destruct p; [discriminate|].
        destruct (the_here_inv _ Eh) as [rest [Eq W]].
        injection Eq as -> ->.
        apply Hdrop; [exact W|]. apply IH. simpl in Hn. lia.
      + apply Hkeep; [exact E|]. apply IH. simpl in Hn. lia. }
  intros p s. exact (G (String.length s) p s (le_n _)).
Qed.

Lemma sub_the_length (p : bool) (s : string) :
  (String.length (sub_the p s) <= String.length s)%nat.
Proof.
  revert p s. apply sub_the_cases.
  - intros p. simpl. lia.
  - intros rest W IH. rewrite (sub_the_drop rest W). simpl. lia.
  - intros p c s E IH. rewrite (sub_the_keep p c s E). simpl. lia.
Qed.

Lemma sub_the_plain (p : bool) (s : string) :
  all_plain s = true -> all_plain (sub_the p s) = true.
Proof.
  revert p s.
  apply (sub_the_cases
           (fun p s => all_plain s = true -> all_plain (sub_the p s) = true)).
  - reflexivity.
  - intros rest W IH Hp. rewrite (sub_the_drop rest W). apply IH.
    exact Hp.
  - intros p c s E IH Hp. rewrite (sub_the_keep p c s E).
    simpl in *. apply andb_true_iff in Hp. destruct Hp as [Hc Hs].
    rewrite Hc. exact (IH Hs).
Qed.

Lemma word_ends_not_here (s : string) :
  word_ends s = true -> the_here s = false.
Proof.
  destruct s as [|a [|b [|c rest]]]; try reflexivity.
  simpl. intros W. destruct (Ascii.eqb_spec a "t") as [-> | N]; [|reflexivity].
  discriminate W.
Qed.

Lemma word_ends_sub_the (s : string) :
  word_ends (sub_the true s) = word_ends s.
Proof. rewrite sub_the_after_word. destruct s; reflexivity. Qed.

(** The previous character matters only where "the" matches. *)
Lemma sub_the_prev (p : bool) (s : string) :
  the_here s = false -> sub_the p s = sub_the true s.
Proof.
  intros E. destruct s as [|c s]; [reflexivity|].
  rewrite !sub_the_keep; [reflexivity | reflexivity |].
  rewrite E. apply andb_false_r.
Qed.

(** Removing "the" further on creates no match here. *)
Lemma the_here_sub_the (c : ascii) (s : string) :
  the_here (String c (sub_the (is_word c) s)) = true ->
  the_here (String c s) = true.
Proof.
  intros E. destruct (the_here_inv _ E) as [rest [Eq W]].
  injection Eq as -> Eq. change (is_word "t") with true in Eq.
  rewrite sub_the_after_word in Eq.
  destruct s as [|b s]; [discriminate|]. injection Eq as -> Eq.
  change (is_word "h") with true in Eq. rewrite sub_the_after_word in Eq.
  destruct s as [|e s]; [discriminate|]. injection Eq as -> Eq.
  change (is_word "e") with true in Eq. subst rest.
  rewrite word_ends_sub_the in W. simpl. exact W.
Qed.

Lemma sub_the_idem (p : bool) (s : string) :
  sub_the p (sub_the p s) = sub_the p s.
Proof.
  revert p s. apply sub_the_cases.
  - reflexivity.
  - intros rest W IH. rewrite (sub_the_drop rest W).
    rewrite (sub_the_prev false (sub_the true rest)); [exact IH|].
    apply word_ends_not_here. rewrite word_ends_sub_the. exact W.
  - intros p c s E IH. rewrite (sub_the_keep p c s E).
    rewrite sub_the_keep; [rewrite IH; reflexivity|].
    destruct p; [reflexivity|]. cbn [negb andb] in *.
    destruct (the_here (String c (sub_the (is_word c) s))) eqn:T;
      [|reflexivity].
    rewrite (the_here_sub_the c s T) in E. discriminate E.
Qed.

(** A text that [sub_the] leaves as it is has no match at its head. *)
Lemma sub_the_fixed_cons (p : bool) (c : ascii) (s : string) :
  sub_the p (String c s) = String c s ->
  negb p && the_here (String c s) = false
  /\ sub_the (is_word c) s = s.
Proof.
  intros F. destruct (negb p && the_here (String c s)) eqn:E.
  - apply andb_true_iff in E. destruct E as [Ep Eh].
    destruct p; [discriminate|].
    destruct (the_here_inv _ Eh) as [rest [Eq W]].
    rewrite Eq, (sub_the_drop rest W) in F.
    pose proof (sub_the_length true rest) as L.
    rewrite F in L. simpl in L. lia.
  - split; [reflexivity|].
    rewrite (sub_the_keep p c s E) in F. injection F as F. exact F.
Qed.

Lemma word_ends_rstrip (s : string) :
  word_ends (rstrip s) = true -> word_ends s = true.
Proof.
  destruct s as [|c s]; [reflexivity|]. intros W.
  destruct (rstrip_cons c s) as [E | E].
  - apply rstrip_cons_empty in E. simpl.
    rewrite (space_not_word c (proj1 E)). reflexivity.
  - rewrite E in W. exact W.
Qed.

Lemma the_here_rstrip (s : string) :
  the_here (rstrip s) = true -> the_here s = true.
Proof.
  intros E. destruct (the_here_inv _ E) as [rest [Eq W]].
  destruct s as [|a s]; [discriminate|].
  destruct (rstrip_cons a s) as [Ea | Ea]; rewrite Ea in Eq; [discriminate|].
  injection Eq as -> Eq.
  destruct s as [|b s]; [discriminate|].
  destruct (rstrip_cons b s) as [Eb | Eb]; rewrite Eb in Eq; [discriminate|].
  injection Eq as -> Eq.
  destruct s as [|c s]; [discriminate|].
  destruct (rstrip_cons c s) as [Ec | Ec]; rewrite Ec in Eq; [discriminate|].
  injection Eq as -> Eq. subst rest.
  simpl. exact (word_ends_rstrip s W).
Qed.

Lemma sub_the_fixed_rstrip (p : bool) (s : string) :
  sub_the p s = s -> sub_the p (rstrip s) = rstrip s.
Proof.
  revert p. induction s as [|c s IH]; intros p F; [reflexivity|].
  destruct (sub_the_fixed_cons p c s F) as [E Fs].
  destruct (rstrip_cons c s) as [R | R]; rewrite R; [reflexivity|].
  rewrite sub_the_keep; [rewrite (IH _ Fs); reflexivity|].
  destruct p; [reflexivity|]. cbn [negb andb] in *.
  destruct (the_here (String c (rstrip s))) eqn:T; [|reflexivity].
  rewrite <- R in T. rewrite (the_here_rstrip _ T) in E. discriminate E.
Qed.

Lemma sub_the_fixed_lstrip (s : string) :
  sub_the false s = s -> sub_the false (lstrip s) = lstrip s.
Proof.
  induction s as [|c s IH]; intros F; [reflexivity|].
  simpl. destruct (is_space c) eqn:Hc; [|exact F].
  apply IH. destruct (sub_the_fixed_cons false c s F) as [_ Fs].
  rewrite (space_not_word c Hc) in Fs. exact Fs.
Qed.

Lemma sub_the_fixed_strip (s : string) :
  sub_the false s = s -> sub_the false (strip s) = strip s.
Proof.
  intros F. apply sub_the_fixed_rstrip, sub_the_fixed_lstrip, F.
Qed.

(** *** The shape of a normalized name *)

Lemma normalize_normalized (v : pyval) : normalized (normalize v).
Proof.
  unfold normalize, normalized.
  set (x := sub_special _).
  assert (Hx : all_plain x = true) by apply sub_special_plain.
  split; [|split].
  - apply strip_plain, sub_the_plain, Hx.
  - apply strip_idem.
  - apply sub_the_fixed_strip, sub_the_idem.
Qed.

Lemma normalize_fixed (t : string) :
  normalized t -> normalize (VStr t) = t.
Proof.
  intros [Hp [Hs Ht]]. unfold normalize, str.
  rewrite (all_plain_lower t Hp), Hs, (all_plain_sub_parens t Hp),
    (all_plain_sub_special t Hp), Ht. exact Hs.
Qed.

(** C5: the normalizer is idempotent: normalizing the string that
    [normalize] returned gives that string again, whatever the first input
    was. *)
Theorem normalize_idempotent (v : pyval) :
  normalize (VStr (normalize v)) = normalize v.
Proof. apply normalize_fixed, normalize_normalized. Qed.

(** ** The matcher *)

Example match_usa :
  @match_iso3 exact_scorer [usa] (VStr "USA") = Ret (VStr "USA").
Proof. reflexivity. Qed.

Example match_atlantis :
  @match_iso3 exact_scorer [usa] (VStr "Atlantis") = Ret VNone.
Proof. reflexivity. Qed.

Section MatcherProperties.

Context `{Scorer}.

(** C3: an input whose normalized form is "czechia" gets the fixed code
    "CZE", whatever the reference table holds and whatever the scorer is:
    the pool is not scored. *)
Theorem czechia_override (country : list country_row) (area : pyval) :
  normalize area = "czechia" ->
  match_iso3 country area = Ret (VStr "CZE").
Proof. exact (match_iso3_override country area). Qed.

(** C2: for an input that does not normalize to "czechia", a best score of
    exactly 90 makes the matcher return the ISO3Code of a reference row, and
    a best score of 89 or less makes it return None. *)
Theorem threshold_boundary (country : list country_row) (area : pyval)
        (m : string) (s : Z) :
  normalize area <> "czechia" ->
  extractOne (normalize area) (all_names country) = Some (m, s) ->
  (s = 90 ->
   exists r, In r country /\ match_iso3 country area = Ret (ISO3Code r))
  /\ (s <= 89 -> match_iso3 country area = Ret VNone).
Proof.
  intros N E. split; intros Hs.
  - destruct (match_iso3_found country area m s N E) as [r [_ [_ [Hr [_ R]]]]];
      [lia | eauto].
  - rewrite (match_iso3_fuzzy _ _ N), E.
    destruct (Z.leb_spec 90 s); [lia | reflexivity].
Qed.

(** C10: when the override did not fire and the best score is at least 90,
    the lookup of the best candidate finds a row, so the matcher returns the
    ISO3Code of the first row found and never falls through the empty-result
    guard: every candidate of the pool is the normalized long or short name
    of a row. *)
Theorem lookup_finds_row (country : list country_row) (area : pyval)
        (m : string) (s : Z) :
  normalize area <> "czechia" ->
  extractOne (normalize area) (all_names country) = Some (m, s) ->
  90 <= s ->
  (forall c, In c (all_names country) ->
     exists r, In r country /\ (norm_long r = c \/ norm_short r = c))
  /\ exists r rest,
       rows_named m country = r :: rest /\
       In r country /\ (norm_long r = m \/ norm_short r = m) /\
       match_iso3 country area = Ret (ISO3Code r).
Proof.
  intros N E Hs. split.
  - intros c. apply all_names_named.
  - exact (match_iso3_found country area m s N E Hs).
Qed.

(** C6: on the lookup path (the override did not fire and the best score
    is at least 90), when the best candidate is the normalized long or short
    name of several rows, the matcher returns the ISO3Code of the first such
    row in table order, whatever rows of that name come later. *)
Theorem first_row_wins (country pre post : list country_row)
        (r : country_row) (area : pyval) (m : string) (s : Z) :
  normalize area <> "czechia" ->
  extractOne (normalize area) (all_names country) = Some (m, s) ->
  90 <= s ->
  country = (pre ++ r :: post)%list ->
  Forall (fun r' => norm_long r' <> m /\ norm_short r' <> m) pre ->
  norm_long r = m \/ norm_short r = m ->
  match_iso3 country area = Ret (ISO3Code r).
Proof.
  intros N E Hs C Hpre Hr.
  rewrite (match_iso3_fuzzy _ _ N), E.
  apply Z.leb_le in Hs. rewrite Hs.
  rewrite C, (rows_named_split m pre post r Hpre Hr). reflexivity.
Qed.

(** C4, amended: with a reference table that has at least one row the
    matcher raises on no input: it returns "CZE", None, or the ISO3Code of a
    reference row. *)
Theorem match_iso3_returns (country : list country_row) (area : pyval) :
  country <> [] ->
  exists v, match_iso3 country area = Ret v
            /\ (v = VStr "CZE" \/ v = VNone
                \/ exists r, In r country /\ v = ISO3Code r).
Proof.
  intros NE.
  destruct (String.eqb_spec (normalize area) "czechia") as [E | N].
  - exists (VStr "CZE"). split; [apply match_iso3_override; exact E | auto].
  - destruct (extractOne_nonempty (normalize area) (all_names country)
                (all_names_nonempty country NE)) as [m [s E]].
    destruct (Z.leb_spec 90 s) as [Hs | Hs].
    + destruct (match_iso3_found country area m s N E Hs)
        as [r [_ [_ [Hr [_ R]]]]].
      exists (ISO3Code r). split; [exact R | eauto].
    + exists VNone. split; [|auto].
      rewrite (match_iso3_fuzzy _ _ N), E.
      destruct (Z.leb_spec 90 s); [lia | reflexivity].
Qed.

(** C9: [normalize] handles a value that is not a string through its
    [str()] form.  A missing Area cell, the float NaN, normalizes to "nan",
    not to the empty string, and is then matched against the pool as the
    name "nan" is: no special case skips the scoring. *)
Theorem nan_is_a_name :
  (forall v, normalize v = normalize (VStr (str v)))
  /\ normalize VNaN = "nan"
  /\ normalize VNaN <> ""
  /\ forall country,
       match_iso3 country VNaN = match_iso3 country (VStr "nan")
       /\ match_iso3 country VNaN =
          match extractOne "nan" (all_names country) with
          | None => Raise
          | Some (m, s) =>
              if 90 <=? s then
                match rows_named m country with
                | r :: _ => Ret (ISO3Code r)
                | [] => Ret VNone
                end
              else Ret VNone
          end.
Proof.
  split; [reflexivity|]. split; [reflexivity|]. split; [discriminate|].
  intros country. split; reflexivity.
Qed.

End MatcherProperties.

Lemma czechia_override_witness :
  @match_iso3 exact_scorer [] (VStr " Czechia (Czech Republic)")
  = Ret (VStr "CZE").
Proof. apply (@czechia_override exact_scorer). reflexivity. Defined.

Lemma threshold_boundary_witness :
  (exists r, In r [guinea_bissau] /\
     @match_iso3 (table_scorer sample_scores) [guinea_bissau] (VStr "Guinea")
     = Ret (ISO3Code r))
  /\ @match_iso3 (table_scorer sample_scores) [guinea_bissau]
       (VStr "Guinee Bissau") = Ret VNone.
Proof.
  split.
  - apply (@threshold_boundary (table_scorer sample_scores) [guinea_bissau]
             (VStr "Guinea") "guinea bissau" 90);
      [intros E; vm_compute in E; discriminate E | reflexivity | reflexivity].
  - apply (@threshold_boundary (table_scorer sample_scores) [guinea_bissau]
             (VStr "Guinee Bissau") "guinea bissau" 89);
      [intros E; vm_compute in E; discriminate E | reflexivity | lia].
Defined.

Lemma lookup_finds_row_witness :
  exists r rest,
    rows_named "usa" [usa] = r :: rest /\
    In r [usa] /\ (norm_long r = "usa" \/ norm_short r = "usa") /\
    @match_iso3 exact_scorer [usa] (VStr "USA") = Ret (ISO3Code r).
Proof.
  apply (@lookup_finds_row exact_scorer [usa] (VStr "USA") "usa" 100);
    [intros E; vm_compute in E; discriminate E | reflexivity | lia].
Defined.

(** The lookup is reached only from the threshold on: "congo" is the best
    candidate for "zzz" (every candidate scores 0 and the first one is kept)
    and is the normalized long name of two rows, and the matcher returns
    None before any row is looked up. *)
Example first_row_needs_threshold :
  @extractOne exact_scorer (normalize (VStr "zzz"))
     (all_names [congo_cog; congo_cod]) = Some ("congo", 0)
  /\ rows_named "congo" [congo_cog; congo_cod] = [congo_cog; congo_cod]
  /\ @match_iso3 exact_scorer [congo_cog; congo_cod] (VStr "zzz") = Ret VNone
  /\ @match_iso3 exact_scorer [congo_cog; congo_cod] (VStr "zzz")
     <> Ret (ISO3Code congo_cog).
Proof.
  repeat split; try reflexivity. vm_compute. discriminate.
Qed.

Lemma first_row_wins_witness :
  @match_iso3 exact_scorer [usa; congo_cog; congo_cod] (VStr "Congo")
  = Ret (VStr "COG").
Proof.
  apply (@first_row_wins exact_scorer [usa; congo_cog; congo_cod]
           [usa] [congo_cod] congo_cog (VStr "Congo") "congo" 100).
  - intros E; vm_compute in E; discriminate E.
  - reflexivity.
  - lia.
  - reflexivity.
  - repeat constructor; intros E; vm_compute in E; discriminate E.
  - left. reflexivity.
Defined.

(** C4, as stated, fails on an empty reference table: the pool is empty,
    [process.extractOne] yields no pair and the unpacking raises, for a name
    as for the empty string or a missing cell. *)
Lemma match_iso3_raises_on_empty_table :
  @match_iso3 exact_scorer [] (VStr "France") = Raise
  /\ @match_iso3 exact_scorer [] (VStr "") = Raise
  /\ @match_iso3 exact_scorer [] VNaN = Raise.
Proof. repeat split; reflexivity. Qed.

Lemma match_iso3_returns_witness :
  exists v, @match_iso3 exact_scorer [usa] (VStr "") = Ret v
            /\ (v = VStr "CZE" \/ v = VNone
                \/ exists r, In r [usa] /\ v = ISO3Code r).
Proof.
  apply (@match_iso3_returns exact_scorer [usa] (VStr "")). discriminate.
Defined.

(** ** The annotated data set *)

Lemma apply_Forall2 {A B : Type} (f : A -> py B) (l : list A) (l' : list B) :
  Forall2 (fun a b => f a = Ret b) l l' -> apply f l = Ret l'.
Proof.
  induction 1 as [|a b l l' Hab _ IH]; simpl; [reflexivity|].
  rewrite Hab. simpl. rewrite IH. reflexivity.
Qed.

Lemma setitem_new (name : string) (cells : list pyval) (df : DataFrame) :
  has_column name df = false ->
  setitem name cells df = (df ++ [(name, cells)])%list.
Proof.
  induction df as [|[n old] df IH]; simpl; [reflexivity|].
  intros Hc. apply orb_false_iff in Hc. destruct Hc as [Hn Hc].
  rewrite Hn, (IH Hc). reflexivity.
Qed.

(** C8, amended: when the data set has a column Area and no column ISO3Code
    yet, and the matcher returns a result for every Area cell, the output is
    the input with its columns and cells unchanged and in order, followed by
    one new column ISO3Code that holds, row by row, the matcher's result for
    the Area cell. *)
Theorem annotate_appends `{Scorer} (country : list country_row)
        (id24 : DataFrame) (areas codes : list pyval) :
  getitem "Area" id24 = Ret areas ->
  has_column "ISO3Code" id24 = false ->
  Forall2 (fun a c => match_iso3 country a = Ret c) areas codes ->
  annotate country id24 = Ret (id24 ++ [("ISO3Code", codes)])%list.
Proof.
  intros HA HC HF. unfold annotate. rewrite HA. simpl.
  rewrite (apply_Forall2 _ _ _ HF). simpl.
  rewrite (setitem_new _ _ _ HC). reflexivity.
Qed.

Lemma annotate_appends_witness :
  @annotate exact_scorer [usa] sample_id24
  = Ret [("Area", [VStr "USA"; VStr "Atlantis"; VNaN]);
         ("Value", [VInt 4; VInt 7; VInt 9]);
         ("ISO3Code", [VStr "USA"; VNone; VNone])].
Proof.
  apply (@annotate_appends exact_scorer [usa] sample_id24
           [VStr "USA"; VStr "Atlantis"; VNaN] [VStr "USA"; VNone; VNone]).
  - reflexivity.
  - reflexivity.
  - repeat constructor.
Defined.

(** C8, as stated, fails on a data set that already has a column ISO3Code:
    the assignment replaces that column where it stands, so its cells are
    not kept and no column is appended. *)
Lemma annotate_replaces_existing_column :
  let id24 : DataFrame :=
    [("Area", [VStr "USA"]); ("ISO3Code", [VStr "old"]); ("Value", [VInt 4])] in
  @annotate exact_scorer [usa] id24
  = Ret [("Area", [VStr "USA"]); ("ISO3Code", [VStr "USA"]);
         ("Value", [VInt 4])]
  /\ @annotate exact_scorer [usa] id24
     <> Ret (id24 ++ [("ISO3Code", [VStr "USA"])])%list.
Proof.
  split; [reflexivity | vm_compute; discriminate].
Qed.

(** ** Matching a reference name against its own table *)

Lemma max_from_max (cur : string * Z) (l : list (string * Z)) :
  forall x, In x (cur :: l) -> snd x <= snd (max_from cur l).
Proof.
  revert cur. induction l as [|p l IH]; intros cur x Hx.
  - destruct Hx as [<- | []]. simpl. lia.
  - simpl. destruct (Z.ltb_spec (snd cur) (snd p)) as [Hlt | Hge].
    + destruct Hx as [<- | Hx].
      * pose proof (IH p p (or_introl eq_refl)). lia.
      * apply IH. exact Hx.
    + destruct Hx as [<- | [<- | Hx]].
      * apply IH. left. reflexivity.
      * pose proof (IH cur cur (or_introl eq_refl)). lia.
      * apply IH. right. exact Hx.
Qed.

Section RoundTrip.

Context `{Scorer}.

(** A candidate that scores strictly more than every other one is the best
    match. *)
Lemma extractOne_best (q n : string) (l : list string) :
  In n l ->
  (forall c, In c l -> c <> n -> score q c < score q n) ->
  extractOne q l = Some (n, score q n).
Proof.
  intros Hn Hbest.
  assert (NE : l <> []) by (intros ->; destruct Hn).
  destruct (extractOne_nonempty q l NE) as [m [s E]].
  destruct (extractOne_Some q l m s E) as [Hm ->].
  destruct (String.eqb_spec m n) as [-> | Hne]; [exact E|].
  exfalso. specialize (Hbest m Hm Hne).
  unfold extractOne in E.
  destruct (filter _ _) as [|p rest] eqn:F; [discriminate|].
  injection E as E.
  assert (Hin : In (n, score q n) (p :: rest)).
  { rewrite <- F. apply filter_In. split.
    - apply in_map_iff. exists n. auto.
    - simpl. apply Z.leb_le. apply score_range. }
  pose proof (max_from_max p rest _ Hin) as Hmax.
  rewrite E in Hmax. simpl in Hmax. lia.
Qed.

(** C1, amended: take a reference row and one of its normalized names [n],
    long or short.  When [n] is not "czechia", scores at least 90 against
    itself and strictly more than any other candidate of the pool does, and
    no earlier row of the table has [n] as its normalized long or short
    name, the matcher returns that row's ISO3Code for [n]. *)
Theorem own_name_round_trip (country pre post : list country_row)
        (r : country_row) (n : string) :
  country = (pre ++ r :: post)%list ->
  n = norm_long r \/ n = norm_short r ->
  Forall (fun r' => norm_long r' <> n /\ norm_short r' <> n) pre ->
  n <> "czechia" ->
  90 <= score n n ->
  (forall c, In c (all_names country) -> c <> n -> score n c < score n n) ->
  match_iso3 country (VStr n) = Ret (ISO3Code r).
Proof.
  intros C Hn Hpre Hcz H90 Hbest.
  assert (Hr : In r country) by (rewrite C; apply in_elt).
  assert (Hfix : normalize (VStr n) = n).
  { apply normalize_fixed.
    destruct Hn as [-> | ->]; apply normalize_normalized. }
  assert (Hpool : In n (all_names country)).
  { destruct (named_in_all_names country r Hr) as [Hl Hs].
    destruct Hn as [-> | ->]; assumption. }
  rewrite match_iso3_fuzzy by (rewrite Hfix; exact Hcz).
  rewrite Hfix, (extractOne_best n n (all_names country) Hpool Hbest).
  apply Z.leb_le in H90. rewrite H90.
  rewrite C, (rows_named_split n pre post r Hpre); [reflexivity|].
  destruct Hn as [-> | ->]; auto.
Qed.

End RoundTrip.

Lemma own_name_round_trip_witness :
  @match_iso3 exact_scorer [usa; congo_cog; congo_cod] (VStr "congo")
  = Ret (VStr "COG").
Proof.
  apply (@own_name_round_trip exact_scorer [usa; congo_cog; congo_cod]
           [usa] [congo_cod] congo_cog "congo").
  - reflexivity.
  - left. reflexivity.
  - repeat constructor; intros E; vm_compute in E; discriminate E.
  - discriminate.
  - vm_compute. discriminate.
  - intros c Hc Hn. vm_compute in Hc.
    repeat (destruct Hc as [<- | Hc];
            [try (exfalso; apply Hn; reflexivity);
             try (vm_compute; reflexivity) |]).
    destruct Hc.
Defined.

(** C1, as stated, fails for a row that shares a normalized name with an
    earlier row: both Congo rows normalize to "congo", and matching the
    second row's own normalized long name returns the first row's code. *)
Lemma round_trip_fails_on_shared_name :
  In congo_cod [congo_cog; congo_cod]
  /\ normalize (longName_EN congo_cod) = "congo"
  /\ @match_iso3 exact_scorer [congo_cog; congo_cod]
       (VStr (normalize (longName_EN congo_cod))) = Ret (VStr "COG")
  /\ @match_iso3 exact_scorer [congo_cog; congo_cod]
       (VStr (normalize (longName_EN congo_cod)))
     <> Ret (ISO3Code congo_cod).
Proof.
  split; [right; left; reflexivity|].
  split; [reflexivity|]. split; [reflexivity|].
  vm_compute. discriminate.
Qed.

(** The other conditions of the round trip.  A name that normalizes to the
    empty string scores 0 against every candidate, itself included. *)
Example round_trip_empty_name :
  let the := {| longName_EN := VStr "The"; shortName_EN := VStr "(the)";
                ISO3Code := VStr "THE" |} in
  norm_long the = ""
  /\ @match_iso3 exact_scorer [the] (VStr (norm_long the)) = Ret VNone.
Proof. split; reflexivity. Qed.

(** A row named "Czechia" gets the fixed code, not its own. *)
Example round_trip_czechia :
  let cz := {| longName_EN := VStr "Czechia"; shortName_EN := VStr "CZ";
               ISO3Code := VStr "CZ1" |} in
  @match_iso3 exact_scorer [cz] (VStr (norm_long cz)) = Ret (VStr "CZE").
Proof. reflexivity. Qed.

(** * Further properties of the normalizer *)

Lemma all_plain_In (s : string) :
  all_plain s = true ->
  forall c, In c (list_ascii_of_string s) -> is_plain c = true.
Proof.
  induction s as [|a s IH]; simpl; [intros _ c []|].
  intros Hp c [<- | Hc]; apply andb_true_iff in Hp; [tauto|].
  apply IH; tauto.
Qed.

(** X1: A normalized name is made of lower-case ASCII letters, digits and
    spaces only. *)
Theorem normalize_alphabet (v : pyval) (c : ascii) :
  In c (list_ascii_of_string (normalize v)) -> is_plain c = true.
Proof.
  apply all_plain_In. exact (proj1 (normalize_normalized v)).
Qed.

Lemma normalize_alphabet_witness : is_plain "4" = true.
Proof.
  apply (normalize_alphabet (VStr "Area 4 (x)") "4").
  vm_compute. auto 10.
Defined.

Lemma rstrip_length (s : string) :
  (String.length (rstrip s) <= String.length s)%nat.
Proof.
  induction s as [|c s IH]; [simpl; lia|].
  destruct (rstrip_cons c s) as [E | E]; rewrite E; simpl; lia.
Qed.

Lemma lstrip_length (s : string) :
  (String.length (lstrip s) <= String.length s)%nat.
Proof.
  induction s as [|c s IH]; simpl; [lia|].
  destruct (is_space c); simpl; lia.
Qed.

Lemma rstrip_app_space (t : string) (c : ascii) :
  is_space c = true -> rstrip (t ++ String c "") = rstrip t.
Proof.
  intros Hc. induction t as [|d t IH]; simpl.
  - rewrite Hc. reflexivity.
  - rewrite IH. reflexivity.
Qed.

Lemma append_length (s t : string) :
  String.length (s ++ t) = (String.length s + String.length t)%nat.
Proof. induction s as [|c s IH]; simpl; [reflexivity | rewrite IH; reflexivity]. Qed.

(** X2: A normalized name has no whitespace at its start and none at its end. *)
Theorem normalize_trimmed (v : pyval) (c : ascii) (t : string) :
  is_space c = true ->
  normalize v <> String c t /\ normalize v <> t ++ String c "".
Proof.
  intros Hc. unfold normalize.
  set (y := sub_the false _). unfold strip. split; intros E.
  - pose proof (rstrip_starts _ (lstrip_starts y)) as S.
    rewrite E in S. simpl in S. rewrite Hc in S. discriminate S.
  - pose proof (rstrip_idem (lstrip y)) as I.
    rewrite E, (rstrip_app_space t c Hc) in I.
    pose proof (rstrip_length t) as L.
    rewrite I, append_length in L. simpl in L. lia.
Qed.

Lemma normalize_trimmed_witness :
  normalize (VStr "  The Gambia  ") <> " gambia"
  /\ normalize (VStr "  The Gambia  ") <> "gambia ".
Proof.
  apply (normalize_trimmed (VStr "  The Gambia  ") " " "gambia").
  reflexivity.
Defined.

Lemma sub_the_fixed_app (p : bool) (pre s : string) :
  sub_the p (pre ++ s) = pre ++ s ->
  sub_the (last_is_word p pre) s = s.
Proof.
  revert p. induction pre as [|c pre IH]; intros p F; [exact F|].
  simpl in F. destruct (sub_the_fixed_cons p c (pre ++ s) F) as [_ Fs].
  simpl. exact (IH _ Fs).
Qed.

(** X3: A normalized name keeps no standalone word "the": wherever "the"
    occurs in it, a word character stands right before or right after. *)
Theorem normalize_no_the (v : pyval) (pre post : string) :
  normalize v = pre ++ "the" ++ post ->
  last_is_word false pre = true \/ word_ends post = false.
Proof.
  intros E.
  pose proof (proj2 (proj2 (normalize_normalized v))) as F.
  rewrite E in F. apply sub_the_fixed_app in F.
  apply sub_the_fixed_cons in F. destruct F as [F _].
  destruct (last_is_word false pre); [left; reflexivity|].
  right. cbn [negb andb] in F. exact F.
Qed.

Lemma normalize_no_the_witness :
  last_is_word false "nor" = true \/ word_ends "rn" = false.
Proof.
  apply (normalize_no_the (VStr "The Northern (the) The")). reflexivity.
Defined.

Lemma lower_char_idem (c : ascii) : lower_char (lower_char c) = lower_char c.
Proof. each_char c. Qed.

Lemma lower_char_space (c : ascii) : is_space (lower_char c) = is_space c.
Proof. each_char c. Qed.

Lemma lower_idem (s : string) : lower (lower s) = lower s.
Proof.
  induction s as [|c s IH]; simpl; [reflexivity|].
  rewrite lower_char_idem, IH. reflexivity.
Qed.

Lemma lower_lstrip (s : string) : lower (lstrip s) = lstrip (lower s).
Proof.
  induction s as [|c s IH]; simpl; [reflexivity|].
  rewrite lower_char_space. destruct (is_space c); [exact IH | reflexivity].
Qed.

Lemma lower_rstrip (s : string) : lower (rstrip s) = rstrip (lower s).
Proof.
  induction s as [|c s IH]; simpl; [reflexivity|].
  rewrite <- IH, lower_char_space.
  destruct (rstrip s) as [|d r]; simpl; [destruct (is_space c)|]; reflexivity.
Qed.

Lemma lower_strip (s : string) : lower (strip s) = strip (lower s).
Proof. unfold strip. rewrite lower_rstrip, lower_lstrip. reflexivity. Qed.

(** X4: The normalizer does not tell upper case from lower case, nor see
    whitespace around the text: lowering or stripping the input first
    changes nothing. *)
Theorem normalize_case_and_margin (s : string) :
  normalize (VStr (lower s)) = normalize (VStr s)
  /\ normalize (VStr (strip s)) = normalize (VStr s).
Proof.
  unfold normalize, str. split.
  - rewrite lower_idem. reflexivity.
  - rewrite lower_strip, strip_idem. reflexivity.
Qed.

(** *** Parentheses *)

Lemma sub_parens_keep (c : ascii) (s : string) :
  (c =? "(")%char && closes s = false ->
  sub_parens (String c s) = String c (sub_parens s).
Proof.
  intros E. simpl. rewrite E. reflexivity.
Qed.

Lemma sub_parens_open (s : string) :
  closes s = true ->
  sub_parens (String "(" s) = sub_parens (after_close s).
Proof.
  intros C. simpl. rewrite C. clear C.
  induction s as [|d t IH]; [reflexivity|].
  simpl. destruct (d =? ")")%char; [reflexivity | exact IH].
Qed.

Lemma closes_app (mid post : string) :
  all_chars (fun c => negb (c =? ")")%char && negb (code c =? 10)%N) mid = true ->
  closes (mid ++ String ")" post) = true
  /\ after_close (mid ++ String ")" post) = post.
Proof.
  induction mid as [|c mid IH]; simpl; [auto|].
  intros Hm. apply andb_true_iff in Hm. destruct Hm as [Hc Hm].
  apply andb_true_iff in Hc. destruct Hc as [H1 H2].
  apply negb_true_iff in H1, H2. rewrite H1, H2. exact (IH Hm).
Qed.

(** X5: A parenthesized part that holds no closing parenthesis and no line
    feed is removed with its parentheses; the text before it, if it has no
    opening parenthesis, is kept, and the removal goes on after it. *)
Theorem sub_parens_removes (pre mid post : string) :
  all_chars (fun c => negb (c =? "(")%char) pre = true ->
  all_chars (fun c => negb (c =? ")")%char && negb (code c =? 10)%N) mid = true ->
  sub_parens (pre ++ String "(" (mid ++ String ")" post))
  = pre ++ sub_parens post.
Proof.
  intros Hpre Hmid. destruct (closes_app mid post Hmid) as [C A].
  induction pre as [|c pre IH].
  - simpl append. rewrite (sub_parens_open _ C), A. reflexivity.
  - simpl in Hpre. apply andb_true_iff in Hpre. destruct Hpre as [Hc Hpre].
    apply negb_true_iff in Hc.
    change (String c pre ++ String "(" (mid ++ String ")" post))
      with (String c (pre ++ String "(" (mid ++ String ")" post))).
    rewrite sub_parens_keep by (rewrite Hc; reflexivity).
    rewrite (IH Hpre). reflexivity.
Qed.

Lemma sub_parens_removes_witness :
  sub_parens ("bolivia " ++ String "(" ("a (b" ++ String ")" " c)"))
  = "bolivia " ++ sub_parens " c)".
Proof.
  apply (sub_parens_removes "bolivia " "a (b" " c)"); reflexivity.
Defined.

Lemma no_close_closes (s : string) :
  all_chars (fun c => negb (c =? ")")%char) s = true -> closes s = false.
Proof.
  induction s as [|c s IH]; simpl; [reflexivity|].
  intros H. apply andb_true_iff in H. destruct H as [Hc Hs].
  apply negb_true_iff in Hc. rewrite Hc.
  destruct (code c =? 10)%N; [reflexivity | exact (IH Hs)].
Qed.

(** X6: Parentheses that are never closed stay: a text without a closing
    parenthesis is left as it is. *)
Theorem sub_parens_unclosed (s : string) :
  all_chars (fun c => negb (c =? ")")%char) s = true -> sub_parens s = s.
Proof.
  induction s as [|c s IH]; [reflexivity|].
  intros H. simpl in H. apply andb_true_iff in H. destruct H as [Hc Hs].
  rewrite sub_parens_keep.
  - rewrite (IH Hs). reflexivity.
  - rewrite (no_close_closes s Hs). apply andb_false_r.
Qed.

Lemma sub_parens_unclosed_witness : sub_parens "a (b (c" = "a (b (c".
Proof. apply (sub_parens_unclosed "a (b (c"). reflexivity. Defined.

(** *** Lengths *)

Lemma after_close_length (s : string) :
  (String.length (after_close s) <= String.length s)%nat.
Proof.
  induction s as [|c s IH]; simpl; [lia|].
  destruct (c =? ")")%char; simpl; lia.
Qed.

Lemma sub_parens_length (s : string) :
  (String.length (sub_parens s) <= String.length s)%nat.
Proof.
  assert (G : forall n s, (String.length s <= n)%nat ->
                          (String.length (sub_parens s) <= String.length s)%nat).
  { induction n as [|n IH]; intros t Hn.
    - destruct t; simpl in *; lia.
    - destruct t as [|c t]; [simpl; lia|].
      destruct ((c =? "(")%char && closes t) eqn:E.
      + apply andb_true_iff in E. destruct E as [Ec Ecl].
        apply Ascii.eqb_eq in Ec. subst c.
        rewrite (sub_parens_open t Ecl).
        pose proof (after_close_length t) as L. simpl in Hn.
        assert (Ha : (String.length (after_close t) <= n)%nat) by lia.
        pose proof (IH _ Ha). simpl. lia.
      + rewrite (sub_parens_keep c t E). simpl in *.
        assert (Ht : (String.length t <= n)%nat) by lia.
        pose proof (IH _ Ht). lia. }
  exact (G (String.length s) s (le_n _)).
Qed.

Lemma sub_special_length (s : string) :
  (String.length (sub_special s) <= String.length s)%nat.
Proof.
  induction s as [|c s IH]; simpl; [lia|].
  destruct (is_plain c); simpl; lia.
Qed.

Lemma lower_length (s : string) : String.length (lower s) = String.length s.
Proof. induction s as [|c s IH]; simpl; [reflexivity | rewrite IH; reflexivity]. Qed.

Lemma strip_length (s : string) :
  (String.length (strip s) <= String.length s)%nat.
Proof.
  unfold strip. pose proof (rstrip_length (lstrip s)).
  pose proof (lstrip_length s). lia.
Qed.

(** X7: The normalizer only removes: a normalized name is never longer than
    the [str()] form of the input. *)
Theorem normalize_length (v : pyval) :
  (String.length (normalize v) <= String.length (str v))%nat.
Proof.
  unfold normalize.
  pose proof (strip_length
    (sub_the false (sub_special (sub_parens (strip (lower (str v))))))).
  pose proof (sub_the_length false
    (sub_special (sub_parens (strip (lower (str v)))))).
  pose proof (sub_special_length (sub_parens (strip (lower (str v))))).
  pose proof (sub_parens_length (strip (lower (str v)))).
  pose proof (strip_length (lower (str v))).
  pose proof (lower_length (str v)). lia.
Qed.

(** * Further properties of the pool and the matcher *)

Lemma unique_NoDup (l : list string) : NoDup (unique l).
Proof.
  induction l as [|a l IH]; simpl; constructor.
  - rewrite filter_In. intros [_ Ha].
    rewrite String.eqb_refl in Ha. discriminate Ha.
  - apply NoDup_filter. exact IH.
Qed.

(** X9: The candidate pool holds every normalized long and short name of the
    table, nothing else, and each one once. *)
Theorem all_names_exact (country : list country_row) :
  NoDup (all_names country)
  /\ forall c, In c (all_names country) <->
               exists r, In r country /\ (norm_long r = c \/ norm_short r = c).
Proof.
  split; [apply unique_NoDup|].
  intros c. split; [apply all_names_named|].
  intros [r [Hr [E | E]]]; subst c; apply (named_in_all_names country r Hr).
Qed.

Section MatcherFurther.

Context `{Scorer}.

Lemma extractOne_max (q : string) (l : list string) (m : string) (s : Z) :
  extractOne q l = Some (m, s) ->
  forall c, In c l -> score q c <= s.
Proof.
  unfold extractOne.
  destruct (filter _ _) as [|p rest] eqn:F; [discriminate|].
  intros E c Hc. injection E as E.
  assert (Hin : In (c, score q c) (p :: rest)).
  { rewrite <- F. apply filter_In. split.
    - apply in_map_iff. exists c. auto.
    - simpl. apply Z.leb_le. apply score_range. }
  pose proof (max_from_max p rest _ Hin) as Hmax.
  rewrite E in Hmax. exact Hmax.
Qed.

(** X10: When no candidate of a non-empty pool scores 90 against the normalized
    input, the matcher returns None. *)
Theorem no_candidate_no_match (country : list country_row) (area : pyval) :
  country <> [] ->
  normalize area <> "czechia" ->
  (forall c, In c (all_names country) -> score (normalize area) c < 90) ->
  match_iso3 country area = Ret VNone.
Proof.
  intros NE N Hlow.
  destruct (extractOne_nonempty (normalize area) (all_names country)
              (all_names_nonempty country NE)) as [m [s E]].
  destruct (extractOne_Some _ _ _ _ E) as [Hm Hs].
  specialize (Hlow m Hm).
  rewrite (match_iso3_fuzzy _ _ N), E.
  destruct (Z.leb_spec 90 s); [lia | reflexivity].
Qed.

(** X11: When some candidate scores at least 90 against the normalized input,
    the matcher returns the ISO3Code of a row one of whose normalized names
    scores highest in the whole pool. *)
Theorem good_candidate_matches (country : list country_row) (area : pyval)
        (c : string) :
  normalize area <> "czechia" ->
  In c (all_names country) ->
  90 <= score (normalize area) c ->
  exists r m,
    In r country /\ (norm_long r = m \/ norm_short r = m)
    /\ (forall c', In c' (all_names country) ->
          score (normalize area) c' <= score (normalize area) m)
    /\ match_iso3 country area = Ret (ISO3Code r).
Proof.
  intros N Hc H90.
  assert (NE : all_names country <> []) by (intros E; rewrite E in Hc; destruct Hc).
  destruct (extractOne_nonempty (normalize area) _ NE) as [m [s E]].
  destruct (extractOne_Some _ _ _ _ E) as [Hm Hs].
  pose proof (extractOne_max _ _ _ _ E) as Hmax.
  assert (H90s : 90 <= s) by (specialize (Hmax c Hc); lia).
  destruct (match_iso3_found country area m s N E H90s)
    as [r [_ [_ [Hr [Hn R]]]]].
  exists r, m. subst s. auto.
Qed.

(** X12: A code is never taken from a row without a good name: when the matcher
    returns a value other than None for an input that does not normalize to
    "czechia", the value is the ISO3Code of a row whose normalized long or
    short name scores at least 90. *)
Theorem match_iso3_sound (country : list country_row) (area : pyval)
        (v : pyval) :
  normalize area <> "czechia" ->
  match_iso3 country area = Ret v ->
  v <> VNone ->
  exists r, In r country /\ v = ISO3Code r
            /\ (90 <= score (normalize area) (norm_long r)
                \/ 90 <= score (normalize area) (norm_short r)).
Proof.
  intros N R Hv. rewrite (match_iso3_fuzzy _ _ N) in R.
  destruct (extractOne _ _) as [[m s]|] eqn:E; [|discriminate R].
  destruct (Z.leb_spec 90 s) as [H90 | Hlow];
    [|injection R as R; congruence].
  destruct (extractOne_Some _ _ _ _ E) as [_ Hs].
  destruct (rows_named m country) as [|r rest] eqn:Rows;
    [injection R as R; congruence|].
  injection R as R.
  assert (Hr : In r (rows_named m country)) by (rewrite Rows; left; reflexivity).
  apply rows_named_In in Hr. destruct Hr as [Hr Hn].
  exists r. split; [exact Hr|]. split; [auto|].
  destruct Hn as [<- | <-]; [left | right]; lia.
Qed.

(** X13: The matcher sees its input only through the normalized form: the
    normalized name gets the result of the raw one. *)
Theorem match_iso3_normalized (country : list country_row) (area : pyval) :
  match_iso3 country (VStr (normalize area)) = match_iso3 country area.
Proof.
  unfold match_iso3.
  rewrite (normalize_fixed _ (normalize_normalized area)). reflexivity.
Qed.

End MatcherFurther.

Lemma no_candidate_no_match_witness :
  @match_iso3 exact_scorer [usa] (VStr "Atlantis") = Ret VNone.
Proof.
  apply (@no_candidate_no_match exact_scorer [usa] (VStr "Atlantis")).
  - discriminate.
  - intros E; vm_compute in E; discriminate E.
  - intros c Hc. vm_compute in Hc.
    repeat (destruct Hc as [<- | Hc]; [vm_compute; reflexivity|]).
    destruct Hc.
Defined.

Lemma good_candidate_matches_witness :
  exists r m,
    In r [guinea_bissau] /\ (norm_long r = m \/ norm_short r = m)
    /\ (forall c', In c' (all_names [guinea_bissau]) ->
          @score (table_scorer sample_scores) (normalize (VStr "Guinea")) c'
          <= @score (table_scorer sample_scores) (normalize (VStr "Guinea")) m)
    /\ @match_iso3 (table_scorer sample_scores) [guinea_bissau] (VStr "Guinea")
       = Ret (ISO3Code r).
Proof.
  apply (@good_candidate_matches (table_scorer sample_scores) [guinea_bissau]
           (VStr "Guinea") "guinea bissau").
  - intros E; vm_compute in E; discriminate E.
  - left. reflexivity.
  - vm_compute. discriminate.
Defined.

Lemma match_iso3_sound_witness :
  exists r, In r [usa; congo_cog] /\ VStr "COG" = ISO3Code r
            /\ (90 <= @score exact_scorer (normalize (VStr "CG")) (norm_long r)
                \/ 90 <= @score exact_scorer (normalize (VStr "CG"))
                           (norm_short r)).
Proof.
  apply (@match_iso3_sound exact_scorer [usa; congo_cog] (VStr "CG")
           (VStr "COG")).
  - intros E; vm_compute in E; discriminate E.
  - reflexivity.
  - discriminate.
Defined.

(** * Further properties of the annotated data set *)

Lemma getitem_setitem (name : string) (cells : list pyval) (df : DataFrame) :
  getitem name (setitem name cells df) = Ret cells.
Proof.
  induction df as [|[n old] df IH]; simpl.
  - rewrite String.eqb_refl. reflexivity.
  - destruct (String.eqb_spec n name) as [-> | N]; simpl.
    + rewrite String.eqb_refl. reflexivity.
    + apply String.eqb_neq in N. rewrite N. exact IH.
Qed.

Lemma getitem_setitem_other (name other : string) (cells : list pyval)
      (df : DataFrame) :
  other <> name ->
  getitem other (setitem name cells df) = getitem other df.
Proof.
  intros N. induction df as [|[n old] df IH]; simpl.
  - apply not_eq_sym in N. apply String.eqb_neq in N. rewrite N. reflexivity.
  - destruct (String.eqb_spec n name) as [-> | Nn]; simpl.
    + apply not_eq_sym in N. apply String.eqb_neq in N. rewrite N. reflexivity.
    + destruct (n =? other)%string; [reflexivity | exact IH].
Qed.

Lemma setitem_setitem (name : string) (c1 c2 : list pyval) (df : DataFrame) :
  setitem name c2 (setitem name c1 df) = setitem name c2 df.
Proof.
  induction df as [|[n old] df IH]; simpl.
  - rewrite String.eqb_refl. reflexivity.
  - destruct (String.eqb_spec n name) as [-> | N]; simpl.
    + rewrite String.eqb_refl. reflexivity.
    + apply String.eqb_neq in N. rewrite N, IH. reflexivity.
Qed.

Lemma setitem_names (name : string) (cells : list pyval) (df : DataFrame) :
  map fst (setitem name cells df) =
  if has_column name df then map fst df else (map fst df ++ [name])%list.
Proof.
  induction df as [|[n old] df IH]; simpl; [reflexivity|].
  destruct (n =? name)%string; simpl; [reflexivity|].
  rewrite IH. destruct (has_column name df); reflexivity.
Qed.

Lemma getitem_missing (name : string) (df : DataFrame) :
  has_column name df = false -> getitem name df = Raise.
Proof.
  induction df as [|[n old] df IH]; simpl; [reflexivity|].
  intros Hc. apply orb_false_iff in Hc. destruct Hc as [Hn Hc].
  rewrite Hn. exact (IH Hc).
Qed.

Lemma apply_inv {A B : Type} (f : A -> py B) (l : list A) (bs : list B) :
  apply f l = Ret bs -> Forall2 (fun a b => f a = Ret b) l bs.
Proof.
  revert bs. induction l as [|a l IH]; simpl; intros bs E.
  - injection E as <-. constructor.
  - destruct (f a) as [b|] eqn:Fa; simpl in E; [|discriminate E].
    destruct (apply f l) as [bs'|] eqn:Fl; simpl in E; [|discriminate E].
    injection E as <-. constructor; [exact Fa | apply IH; reflexivity].
Qed.

Lemma apply_raises {A B : Type} (f : A -> py B) (l : list A) (a : A) :
  In a l -> f a = Raise -> apply f l = Raise.
Proof.
  intros Ha Fa. induction l as [|x l IH]; [destruct Ha|].
  simpl. destruct Ha as [-> | Ha].
  - rewrite Fa. reflexivity.
  - destruct (f x); simpl; [|reflexivity]. rewrite (IH Ha). reflexivity.
Qed.

Lemma apply_returns {A B : Type} (f : A -> py B) (l : list A) :
  (forall a, exists b, f a = Ret b) -> exists bs, apply f l = Ret bs.
Proof.
  intros Hf. induction l as [|a l [bs IH]]; simpl; [eauto|].
  destruct (Hf a) as [b Fa]. rewrite Fa, IH. simpl. eauto.
Qed.

Section AnnotateFurther.

Context `{Scorer}.

Lemma match_iso3_ret (country : list country_row) (a : pyval) :
  country <> [] -> exists v, match_iso3 country a = Ret v.
Proof.
  intros NE. unfold match_iso3.
  destruct (normalize a =? "czechia")%string; [eauto|].
  destruct (extractOne_nonempty (normalize a) (all_names country)
              (all_names_nonempty country NE)) as [m [s E]].
  rewrite E. destruct (90 <=? s); [|eauto].
  destruct (rows_named m country); eauto.
Qed.

(** X15: Without a column Area the script raises and produces no data set. *)
Theorem annotate_needs_area (country : list country_row) (id24 : DataFrame) :
  has_column "Area" id24 = false -> annotate country id24 = Raise.
Proof.
  intros Hc. unfold annotate. rewrite (getitem_missing _ _ Hc). reflexivity.
Qed.

(** X16: With a reference table of at least one row and a column Area the script
    raises on no data set: it returns the input with its column ISO3Code
    set to the matcher's results, row by row. *)
Theorem annotate_returns (country : list country_row) (id24 : DataFrame)
        (areas : list pyval) :
  country <> [] ->
  getitem "Area" id24 = Ret areas ->
  exists codes,
    Forall2 (fun a c => match_iso3 country a = Ret c) areas codes
    /\ annotate country id24 = Ret (setitem "ISO3Code" codes id24).
Proof.
  intros NE HA.
  destruct (apply_returns (match_iso3 country) areas) as [codes E].
  - intros a. exact (match_iso3_ret country a NE).
  - exists codes. split; [apply apply_inv; exact E|].
    unfold annotate. rewrite HA. simpl. rewrite E. reflexivity.
Qed.

(** X17: With an empty reference table the script raises as soon as one Area
    cell does not normalize to "czechia". *)
Theorem annotate_empty_table (id24 : DataFrame) (areas : list pyval)
        (a : pyval) :
  getitem "Area" id24 = Ret areas ->
  In a areas ->
  normalize a <> "czechia" ->
  annotate [] id24 = Raise.
Proof.
  intros HA Ha N. unfold annotate. rewrite HA. simpl.
  rewrite (apply_raises (match_iso3 []) areas a Ha); [reflexivity|].
  rewrite (match_iso3_fuzzy _ _ N). reflexivity.
Qed.

(** X18: What the script leaves alone: every column other than ISO3Code has its
    cells unchanged, the column names keep their order (ISO3Code comes last
    when it is new, stays in place otherwise), and the ISO3Code column has
    one cell for each Area cell, the matcher's result for it. *)
Theorem annotate_frame (country : list country_row) (id24 out : DataFrame) :
  annotate country id24 = Ret out ->
  (forall name, name <> "ISO3Code" -> getitem name out = getitem name id24)
  /\ map fst out =
     (if has_column "ISO3Code" id24 then map fst id24
      else (map fst id24 ++ ["ISO3Code"])%list)
  /\ exists areas codes,
       getitem "Area" id24 = Ret areas
       /\ getitem "ISO3Code" out = Ret codes
       /\ Forall2 (fun a c => match_iso3 country a = Ret c) areas codes
       /\ List.length codes = List.length areas.
Proof.
  unfold annotate. intros E.
  destruct (getitem "Area" id24) as [areas|] eqn:HA; simpl in E;
    [|discriminate E].
  destruct (apply (match_iso3 country) areas) as [codes|] eqn:HC; simpl in E;
    [|discriminate E].
  injection E as <-. split; [|split].
  - intros name N. apply getitem_setitem_other. exact N.
  - apply setitem_names.
  - exists areas, codes. split; [reflexivity|].
    split; [apply getitem_setitem|].
    pose proof (apply_inv _ _ _ HC) as F. split; [exact F|].
    symmetry. exact (Forall2_length F).
Qed.

(** X19: Running the script on its own output changes nothing. *)
Theorem annotate_again (country : list country_row) (id24 out : DataFrame) :
  annotate country id24 = Ret out -> annotate country out = Ret out.
Proof.
  unfold annotate. intros E.
  destruct (getitem "Area" id24) as [areas|] eqn:HA; simpl in E;
    [|discriminate E].
  destruct (apply (match_iso3 country) areas) as [codes|] eqn:HC; simpl in E;
    [|discriminate E].
  injection E as <-.
  rewrite getitem_setitem_other by discriminate.
  rewrite HA. simpl. rewrite HC. simpl.
  rewrite setitem_setitem. reflexivity.
Qed.

End AnnotateFurther.

Lemma annotate_needs_area_witness :
  @annotate exact_scorer [usa] [("Country", [VStr "USA"])] = Raise.
Proof.
  apply (@annotate_needs_area exact_scorer [usa] [("Country", [VStr "USA"])]).
  reflexivity.
Defined.

Lemma annotate_returns_witness :
  exists codes,
    Forall2 (fun a c => @match_iso3 exact_scorer [usa] a = Ret c)
      [VStr "USA"; VStr "Atlantis"; VNaN] codes
    /\ @annotate exact_scorer [usa] sample_id24
       = Ret (setitem "ISO3Code" codes sample_id24).
Proof.
  apply (@annotate_returns exact_scorer [usa] sample_id24
           [VStr "USA"; VStr "Atlantis"; VNaN]).
  - discriminate.
  - reflexivity.
Defined.

Lemma annotate_empty_table_witness :
  @annotate exact_scorer [] sample_id24 = Raise.
Proof.
  apply (@annotate_empty_table exact_scorer sample_id24
           [VStr "USA"; VStr "Atlantis"; VNaN] (VStr "Atlantis")).
  - reflexivity.
  - right. left. reflexivity.
  - intros E; vm_compute in E; discriminate E.
Defined.

Lemma annotate_frame_witness :
  (forall name, name <> "ISO3Code" ->
     getitem name (setitem "ISO3Code" [VStr "USA"; VNone; VNone] sample_id24)
     = getitem name sample_id24)
  /\ map fst (setitem "ISO3Code" [VStr "USA"; VNone; VNone] sample_id24) =
     (if has_column "ISO3Code" sample_id24 then map fst sample_id24
      else (map fst sample_id24 ++ ["ISO3Code"])%list)
  /\ exists areas codes,
       getitem "Area" sample_id24 = Ret areas
       /\ getitem "ISO3Code"
            (setitem "ISO3Code" [VStr "USA"; VNone; VNone] sample_id24)
          = Ret codes
       /\ Forall2 (fun a c => @match_iso3 exact_scorer [usa] a = Ret c)
            areas codes
       /\ List.length codes = List.length areas.
Proof.
  apply (@annotate_frame exact_scorer [usa] sample_id24
           (setitem "ISO3Code" [VStr "USA"; VNone; VNone] sample_id24)).
  reflexivity.
Defined.

Lemma annotate_again_witness :
  @annotate exact_scorer [usa]
    (setitem "ISO3Code" [VStr "USA"; VNone; VNone] sample_id24)
  = Ret (setitem "ISO3Code" [VStr "USA"; VNone; VNone] sample_id24).
Proof.
  apply (@annotate_again exact_scorer [usa] sample_id24). reflexivity.
Defined.

(** * Fixed points and ties *)


Lemma max_from_first (cur : string * Z) (l : list (string * Z)) :
  (forall x, In x l -> snd x <= snd cur) -> max_from cur l = cur.
Proof.
  induction l as [|p l IH]; intros Hle; [reflexivity|].
  simpl. destruct (Z.ltb_spec (snd cur) (snd p)) as [Hlt | _].
  - specialize (Hle p (or_introl eq_refl)). lia.
  - apply IH. intros x Hx. apply Hle. right. exact Hx.
Qed.

(** X14: Ties go to the head of the table: when the normalized long name of the
    first row scores at least 90 and no candidate scores more, the matcher
    returns the first row's ISO3Code, whatever candidates score the same. *)
Theorem first_row_wins_ties `{Scorer} (r : country_row)
        (rest : list country_row) (area : pyval) :
  normalize area <> "czechia" ->
  90 <= score (normalize area) (norm_long r) ->
  (forall c, In c (all_names (r :: rest)) ->
     score (normalize area) c <= score (normalize area) (norm_long r)) ->
  match_iso3 (r :: rest) area = Ret (ISO3Code r).
Proof.
  intros N H90 Hmax.
  rewrite (match_iso3_fuzzy _ _ N).
  assert (E : extractOne (normalize area) (all_names (r :: rest))
              = Some (norm_long r, score (normalize area) (norm_long r))).
  { unfold extractOne.
    pose proof Hmax as Hmax'. revert Hmax'.
    unfold all_names. simpl.
    set (tl := filter _ (unique _)). intros Hmax'.
    destruct (Z.leb_spec 0 (score (normalize area) (norm_long r)));
      [|lia].
    f_equal. apply max_from_first. intros x Hx.
    apply filter_In in Hx. destruct Hx as [Hx _].
    apply in_map_iff in Hx. destruct Hx as [c [<- Hc]]. simpl.
    apply Hmax'. right. exact Hc. }
  rewrite E. apply Z.leb_le in H90. rewrite H90.
  unfold rows_named. simpl. rewrite String.eqb_refl. reflexivity.
Qed.

Lemma first_row_wins_ties_witness :
  @match_iso3 exact_scorer [congo_cog; congo_cod] (VStr "Congo")
  = Ret (VStr "COG").
Proof.
  apply (@first_row_wins_ties exact_scorer congo_cog [congo_cod] (VStr "Congo")).
  - intros E; vm_compute in E; discriminate E.
  - vm_compute. discriminate.
  - intros c Hc. vm_compute in Hc.
    repeat (destruct Hc as [<- | Hc]; [vm_compute; discriminate|]).
    destruct Hc.
Defined.
